(** * uwt: fs_poll and tty stubs (uwt_stubs_fs_poll.c, uwt_stubs_tty.c)

    A shallow embedding of the two stub files.  The native libuv calls are
    oracles (their return codes are inputs of the model); the host (OCaml)
    heap is reduced to the values the stubs build; the C side is a world
    holding the [struct handle] of the stub's handle, whether the host
    handle value still points to it ([Field(v,1)]), the global root
    registry, and the trace of observable actions in chronological order. *)

From Stdlib Require Import ZArith List String Ascii Bool Lia.
Import ListNotations.
Open Scope Z_scope.

(** ** Error codes *)

(** The error enumeration of the host side: the libuv error names (one
    constructor each) shared by [Val_uwt_error] and the constants
    [VAL_UWT_ERROR_*] the stubs use directly. *)
Inductive uwt_error :=
| E2BIG | EACCES | EADDRINUSE | EADDRNOTAVAIL | EAFNOSUPPORT | EAGAIN
| EALREADY | EBADF | EBUSY | ECANCELED | ECHARSET | ECONNABORTED
| ECONNREFUSED | ECONNRESET | EEXIST | EFAULT | EFBIG | EINTR | EINVAL
| EIO | EISDIR | ELOOP | EMFILE | ENAMETOOLONG | ENOENT | ENOMEM | ENOSPC
| ENOSYS | ENOTDIR | ENOTEMPTY | ENOTSUP | ENOTTY | EPERM | EPIPE | EROFS
| ETIMEDOUT | EXDEV | UNKNOWN | EOF | ENXIO.

(** Modelled from the spec: the native (libuv, Linux) status code of each
    error name, the table behind [Val_uwt_error] (not in src). *)
Definition uv_errno (e : uwt_error) : Z :=
  match e with
  | E2BIG => -7 | EACCES => -13 | EADDRINUSE => -98 | EADDRNOTAVAIL => -99
  | EAFNOSUPPORT => -97 | EAGAIN => -11 | EALREADY => -114 | EBADF => -9
  | EBUSY => -16 | ECANCELED => -125 | ECHARSET => -4080
  | ECONNABORTED => -103 | ECONNREFUSED => -111 | ECONNRESET => -104
  | EEXIST => -17 | EFAULT => -14 | EFBIG => -27 | EINTR => -4
  | EINVAL => -22 | EIO => -5 | EISDIR => -21 | ELOOP => -40 | EMFILE => -24
  | ENAMETOOLONG => -36 | ENOENT => -2 | ENOMEM => -12 | ENOSPC => -28
  | ENOSYS => -38 | ENOTDIR => -20 | ENOTEMPTY => -39 | ENOTSUP => -95
  | ENOTTY => -25 | EPERM => -1 | EPIPE => -32 | EROFS => -30
  | ETIMEDOUT => -110 | EXDEV => -18 | UNKNOWN => -4094 | EOF => -4095
  | ENXIO => -6
  end.

Definition all_errors : list uwt_error :=
  [E2BIG; EACCES; EADDRINUSE; EADDRNOTAVAIL; EAFNOSUPPORT; EAGAIN;
   EALREADY; EBADF; EBUSY; ECANCELED; ECHARSET; ECONNABORTED;
   ECONNREFUSED; ECONNRESET; EEXIST; EFAULT; EFBIG; EINTR; EINVAL;
   EIO; EISDIR; ELOOP; EMFILE; ENAMETOOLONG; ENOENT; ENOMEM; ENOSPC;
   ENOSYS; ENOTDIR; ENOTEMPTY; ENOTSUP; ENOTTY; EPERM; EPIPE; EROFS;
   ETIMEDOUT; EXDEV; UNKNOWN; EOF; ENXIO].

(** The supported range of native status codes. *)
Definition supported_codes : list Z := map uv_errno all_errors.

(** Modelled from the spec: [Val_uwt_error] (not in src), the Error Code
    Translator: a native status code is mapped to its error identifier
    through a fixed table; a code outside the table is [UNKNOWN]. *)
Definition Val_uwt_error (n : Z) : uwt_error :=
  match find (fun e => uv_errno e =? n) all_errors with
  | Some e => e
  | None => UNKNOWN
  end.

(** ** Host values *)

(** The native [uv_stat_t] record (the fields uwt copies). *)
Record uv_stat := mk_uv_stat {
  st_dev : Z; st_mode : Z; st_nlink : Z; st_uid : Z; st_gid : Z;
  st_rdev : Z; st_ino : Z; st_size : Z; st_blksize : Z; st_blocks : Z;
  st_flags : Z; st_gen : Z; st_atim : Z; st_mtim : Z; st_ctim : Z;
  st_birthtim : Z
}.

(** The host values the stubs receive or build.  [HOk] and [HError] are the
    blocks of tag [Ok_tag] and [Error_tag] with one field. *)
Inductive hvalue :=
| HUnit
| HInt (n : Z)
| HClosure (id : nat)
| HHandle (id : nat)
| HStat (fields : list Z)
| HPair (a b : hvalue)
| HOk (v : hvalue)
| HError (e : uwt_error).

(** Modelled from the spec: [uwt__stat_to_value] (not in src) marshals a
    native stat record into a fresh host record, a copy of its fields. *)
Definition uwt__stat_to_value (s : uv_stat) : hvalue :=
  HStat [st_dev s; st_mode s; st_nlink s; st_uid s; st_gid s; st_rdev s;
         st_ino s; st_size s; st_blksize s; st_blocks s; st_flags s;
         st_gen s; st_atim s; st_mtim s; st_ctim s; st_birthtim s].

(** [uwt__alloc_eresult e]: a fresh [Error e] block. *)
Definition uwt__alloc_eresult (e : uwt_error) : hvalue := HError e.

(** ** Handles, the root registry and the world *)

Inductive uv_handle_type := UV_FS_POLL | UV_TTY.

(** [struct handle]: the native handle struct of one kind, the
    [initialized] and [close_called] flags, and the two registry slots
    ([None] is an empty slot). *)
Record handle := mk_handle {
  h_kind : uv_handle_type;
  initialized : bool;
  close_called : bool;
  cb_read : option nat;
  cb_listen : option nat
}.

(** The global root registry: the pinned entries (slot, value), the next
    slot number and the capacity of the table. *)
Record registry := mk_registry {
  gr_entries : list (nat * hvalue);
  gr_next : nat;
  gr_size : nat
}.

(** Observable actions, in the order they happen.  A native call records
    the handle struct as it is when the call is made. *)
Inductive event :=
| EvEnlarge
| EvAlloc (k : uv_handle_type)
| EvNativeInit (h : handle)
| EvNativeStart (h : handle)
| EvFree
| EvClose
| EvRegister (slot : nat) (v : hvalue)
| EvRelease (slot : nat)
| EvGrOverflow
| EvCallback (cb t param : hvalue)
| EvSetMode (mode : Z).

(** The world of one handle: its [struct handle] while it is allocated,
    whether the host handle value points to it ([Field(v,1) != 0]), the
    shared registry, the number of the host handle value, and the trace. *)
Record world := mk_world {
  w_handle : option handle;
  w_vptr : bool;
  w_gr : registry;
  w_hid : nat;
  w_trace : list event
}.

(** The results of the native calls a run performs. *)
Record native := mk_native {
  nv_init_rc : Z;      (* uv_fs_poll_init / uv_tty_init *)
  nv_start_rc : Z;     (* uv_fs_poll_start *)
  nv_grow_ok : bool    (* the registry table could be grown *)
}.

(** Modelled from the spec: the loop value [INIT_LOOP_RESULT] (not in src)
    checks; [init_called] is false for a closed or unusable loop, which the
    stub refuses with [Error EBADF]. *)
Record loop := mk_loop { loop_init_called : bool }.

Definition fresh_world (gr : registry) (hid : nat) : world :=
  mk_world None false gr hid [].

Definition emit (e : event) (w : world) : world :=
  mk_world (w_handle w) (w_vptr w) (w_gr w) (w_hid w) (w_trace w ++ [e]).

Definition set_handle (h : option handle) (w : world) : world :=
  mk_world h (w_vptr w) (w_gr w) (w_hid w) (w_trace w).

Definition set_vptr (b : bool) (w : world) : world :=
  mk_world (w_handle w) b (w_gr w) (w_hid w) (w_trace w).

Definition set_gr (gr : registry) (w : world) : world :=
  mk_world (w_handle w) (w_vptr w) gr (w_hid w) (w_trace w).

Definition set_initialized (h : handle) : handle :=
  mk_handle (h_kind h) true (close_called h) (cb_read h) (cb_listen h).

Definition set_close_called (h : handle) : handle :=
  mk_handle (h_kind h) (initialized h) true (cb_read h) (cb_listen h).

(** The two registry slots of a handle. *)
Inductive slot_sel := Cb_read | Cb_listen.

Definition get_slot (s : slot_sel) (h : handle) : option nat :=
  match s with Cb_read => cb_read h | Cb_listen => cb_listen h end.

Definition put_slot (s : slot_sel) (o : option nat) (h : handle) : handle :=
  match s with
  | Cb_read => mk_handle (h_kind h) (initialized h) (close_called h) o (cb_listen h)
  | Cb_listen => mk_handle (h_kind h) (initialized h) (close_called h) (cb_read h) o
  end.

(** Modelled from the spec: the margin [GR_ROOT_ENLARGE] (not in src)
    guarantees, the number of values one start operation pins. *)
Definition GR_ROOT_MARGIN : nat := 2.

(** Modelled from the spec: [GR_ROOT_ENLARGE] (not in src) requests that
    the registry have room for the pins of the current step; when it is
    short of room the table grows, and a failed growth ends the operation
    (the boolean is false). *)
Definition GR_ROOT_ENLARGE (nv : native) (w : world) : world * bool :=
  let w := emit EvEnlarge w in
  let gr := w_gr w in
  if Nat.leb (List.length (gr_entries gr) + GR_ROOT_MARGIN)%nat (gr_size gr) then (w, true)
  else if nv_grow_ok nv then
    (set_gr (mk_registry (gr_entries gr) (gr_next gr)
               (2 * gr_size gr + GR_ROOT_MARGIN)%nat) w, true)
  else (w, false).

(** Modelled from the spec: [uwt__gr_register(&h->slot, v)] (not in src)
    pins [v] in a new slot of the registry and stores the slot in the
    handle; a table with no free room is overrun ([EvGrOverflow]). *)
Definition uwt__gr_register (s : slot_sel) (v : hvalue) (w : world) : world :=
  let gr := w_gr w in
  let w := if Nat.ltb (List.length (gr_entries gr)) (gr_size gr) then w
           else emit EvGrOverflow w in
  let k := gr_next gr in
  let w := set_gr (mk_registry ((k, v) :: gr_entries gr) (S k) (gr_size gr)) w in
  let w := set_handle (option_map (put_slot s (Some k)) (w_handle w)) w in
  emit (EvRegister k v) w.

(** Modelled from the spec: [uwt__gr_unregister(&h->slot)] (not in src)
    releases the entry of a filled slot and clears the slot; an empty slot
    is left alone. *)
Definition uwt__gr_unregister (s : slot_sel) (w : world) : world :=
  match w_handle w with
  | None => w
  | Some h =>
      match get_slot s h with
      | None => w
      | Some k =>
          let gr := w_gr w in
          let w := set_gr (mk_registry
                             (filter (fun p => negb (Nat.eqb (fst p) k)) (gr_entries gr))
                             (gr_next gr) (gr_size gr)) w in
          let w := set_handle (Some (put_slot s None h)) w in
          emit (EvRelease k) w
      end
  end.

(** Modelled from the spec: [GET_CB_VAL(slot)] (not in src) resolves a
    slot back to the value pinned in the registry. *)
Definition GET_CB_VAL (o : option nat) (w : world) : hvalue :=
  match o with
  | None => HUnit
  | Some k =>
      match find (fun p => Nat.eqb (fst p) k) (gr_entries (w_gr w)) with
      | Some (_, v) => v
      | None => HUnit
      end
  end.

(** ** Handle wrapper lifecycle *)

(** Modelled from the spec: [uwt__handle_res_create(kind, _)] (not in src)
    allocates a Handle wrapper (native struct of the kind, flags clear, no
    registry slots) and the host handle value [v] pointing to it, returned
    in an [Ok v] block.  The stubs read [v] back as [Field(ret,0)]. *)
Definition uwt__handle_res_create (k : uv_handle_type) (w : world) : world * handle :=
  let h := mk_handle k false false None None in
  let w := set_vptr true (set_handle (Some h) w) in
  (emit (EvAlloc k) w, h).

(** Modelled from the spec: [uwt__free_handle(h)] (not in src) frees the
    native struct at once, without the native close sequence. *)
Definition uwt__free_handle (w : world) : world :=
  emit EvFree (set_handle None w).

(** Modelled from the spec: [uwt__handle_finalize_close(h)] (not in src)
    runs the close sequence once: it releases the filled registry slots,
    marks the handle closed and requests the native close ([uv_close]);
    the struct is freed when the native close completes
    ([uwt__close_cb]).  A second request is a no-op. *)
Definition uwt__handle_finalize_close (w : world) : world :=
  match w_handle w with
  | None => w
  | Some h =>
      if close_called h then w
      else
        let w := uwt__gr_unregister Cb_listen (uwt__gr_unregister Cb_read w) in
        let w := set_handle (option_map set_close_called (w_handle w)) w in
        emit EvClose w
  end.

(** Modelled from the spec: the native close callback frees the struct
    and clears the host value's pointer. *)
Definition uwt__close_cb (w : world) : world :=
  emit EvFree (set_vptr false (set_handle None w)).

(** Modelled from the spec: the host's [close] request; idempotent, a
    no-op on a handle already closed or no longer reachable. *)
Definition uwt_close (w : world) : world :=
  if w_vptr w then uwt__handle_finalize_close w else w.

(** The result of [Val_uwt_error] wrapped in an [Error] block. *)
Definition error_result (erg : Z) : hvalue := HError (Val_uwt_error erg).

(** ** uwt_stubs_fs_poll.c *)

(** Modelled from the spec: [uwt_is_safe_string] (not in src), the check
    that the path is in the safe encoding the C side accepts: a string it
    can read as a NUL-terminated path, i.e. one with no NUL byte. *)
Fixpoint uwt_is_safe_string (s : string) : bool :=
  match s with
  | EmptyString => true
  | String c s' => negb (Ascii.eqb c zero) && uwt_is_safe_string s'
  end.

(** [String_val(o_path)[0] == '\0'] *)
Definition first_byte_is_nul (s : string) : bool :=
  match s with
  | EmptyString => true
  | String c _ => Ascii.eqb c zero
  end.

(** [UINT_MAX] on the supported platforms. *)
Definition UINT_MAX : Z := 4294967295.

(** Modelled from the spec: [UINT_VAL_RET_WRAP_EINVAL] (not in src)
    accepts an interval that fits an unsigned int. *)
Definition uint_val_ok (x : Z) : bool := (0 <=? x) && (x <=? UINT_MAX).

(** [uwt_fs_poll_start(o_loop, o_path, o_interval, o_cb)]. *)
Definition uwt_fs_poll_start (nv : native) (w : world) (o_loop : loop)
    (o_path : string) (o_interval : Z) (o_cb : hvalue) : world * hvalue :=
  if negb (uwt_is_safe_string o_path) then (w, uwt__alloc_eresult ECHARSET)
  else if first_byte_is_nul o_path then (w, uwt__alloc_eresult EINVAL)
  else if negb (uint_val_ok o_interval) then (w, uwt__alloc_eresult EINVAL)
  (* INIT_LOOP_RESULT(l,o_loop) *)
  else if negb (loop_init_called o_loop) then (w, uwt__alloc_eresult EBADF)
  else
    let '(w, grown) := GR_ROOT_ENLARGE nv w in
    if negb grown then (w, uwt__alloc_eresult ENOMEM)
    else
      let '(w, h) := uwt__handle_res_create UV_FS_POLL w in
      let v := HHandle (w_hid w) in
      let w := emit (EvNativeInit h) w in
      let erg := nv_init_rc nv in
      if erg <? 0 then
        let w := uwt__free_handle w in
        (set_vptr false w, error_result erg)
      else
        let w := emit (EvNativeStart h) w in
        let erg := nv_start_rc nv in
        if erg <? 0 then
          let w := uwt__handle_finalize_close w in
          (set_vptr false w, error_result erg)
        else
          let w := uwt__gr_register Cb_read o_cb w in
          let w := uwt__gr_register Cb_listen v w in
          (w, HOk v).

(** The checks [uwt_fs_poll_start] makes before it touches the registry,
    in the order it makes them. *)
Definition fs_poll_checks (o_loop : loop) (o_path : string) (o_interval : Z) : bool :=
  uwt_is_safe_string o_path && negb (first_byte_is_nul o_path)
  && uint_val_ok o_interval && loop_init_called o_loop.

(** [fs_poll_cb(handle, status, prev, curr)].  [HANDLE_CB_START] (not in
    src) resolves the struct of the handle; the callback returns
    normally, so [HANDLE_CB_END] has nothing to do. *)
Definition fs_poll_cb (w : world) (status : Z) (prev curr : uv_stat) : world :=
  match w_handle w with
  | None => w
  | Some h =>
      let param :=
        if status <? 0 then HError (Val_uwt_error status)
        else HOk (HPair (uwt__stat_to_value prev) (uwt__stat_to_value curr)) in
      let cb := GET_CB_VAL (cb_read h) w in
      let t := GET_CB_VAL (cb_listen h) w in
      emit (EvCallback cb t param) w
  end.

(** What may happen to the fs_poll handle after the start: a host close
    request, the completion of the native close, or a poll event. *)
Inductive op :=
| OpClose
| OpCloseDone
| OpEvent (status : Z) (prev curr : uv_stat).

(** Modelled from the spec: the native loop completes a close only after
    one was requested, and delivers poll events only to a started handle
    that is not closing. *)
Definition step (w : world) (o : op) : world :=
  match o, w_handle w with
  | OpClose, _ => uwt_close w
  | OpCloseDone, Some h => if close_called h then uwt__close_cb w else w
  | OpEvent st p c, Some h =>
      if close_called h then w
      else match cb_read h with Some _ => fs_poll_cb w st p c | None => w end
  | _, None => w
  end.

Definition run (w : world) (os : list op) : world := fold_left step os w.

(** ** uwt_stubs_tty.c *)

(** A stub either returns or stops the process on a failed [assert]. *)
Inductive outcome (A : Type) :=
| Returned (a : A)
| Aborted.
Arguments Returned {A} a.
Arguments Aborted {A}.

(** [uwt_tty_init(o_loop, o_fd, o_readable)]; [Uv_loop_val] and [FD_VAL]
    only unpack their arguments. *)
Definition uwt_tty_init (nv : native) (w : world) (o_loop : loop)
    (o_fd : Z) (o_readable : Z) : world * hvalue :=
  let readable := o_readable =? 1 in
  let '(w, h) := uwt__handle_res_create UV_TTY w in
  let dc := HHandle (w_hid w) in
  let h := set_initialized h in
  let w := set_handle (Some h) w in
  let w := emit (EvNativeInit h) w in
  let erg := nv_init_rc nv in
  if erg <? 0 then
    let w := uwt__free_handle w in
    let w := set_vptr false w in
    (w, error_result erg)
  else (w, HOk dc).

(** The libuv terminal modes. *)
Definition UV_TTY_MODE_NORMAL : Z := 0.
Definition UV_TTY_MODE_RAW : Z := 1.
Definition UV_TTY_MODE_IO : Z := 2.

(** The [switch] of [uwt_tty_set_mode_na]: [default] asserts, then falls
    through to [case 0]; [ndebug] is true when assertions are compiled
    out. *)
Definition tty_mode_switch (ndebug : bool) (o_mode : Z) : outcome Z :=
  if o_mode =? 2 then Returned UV_TTY_MODE_IO
  else if o_mode =? 1 then Returned UV_TTY_MODE_RAW
  else if o_mode =? 0 then Returned UV_TTY_MODE_NORMAL
  else if ndebug then Returned UV_TTY_MODE_NORMAL
  else Aborted.

(** Modelled from the spec: [HANDLE_INIT_NOUNINIT_NA] and
    [HANDLE_NO_UNINIT_CLOSED_WRAP] (not in src) let an operation through
    only on a live handle: reachable from its host value, native-initialized
    and not closed; any other handle gets [Error EBADF]. *)
Definition handle_usable (w : world) : bool :=
  match w_handle w with
  | Some h => w_vptr w && initialized h && negb (close_called h)
  | None => false
  end.

(** [VAL_UWT_UNIT_RESULT(ret)] *)
Definition VAL_UWT_UNIT_RESULT (ret : Z) : hvalue :=
  if ret <? 0 then error_result ret else HOk HUnit.

(** [uwt_tty_set_mode_na(o_tty, o_mode)]; [set_rc] is what
    [uv_tty_set_mode] returns. *)
Definition uwt_tty_set_mode_na (ndebug : bool) (set_rc : Z) (w : world)
    (o_mode : Z) : outcome (world * hvalue) :=
  if negb (handle_usable w) then Returned (w, HError EBADF)
  else
    match tty_mode_switch ndebug o_mode with
    | Aborted => Aborted
    | Returned mode =>
        let w := emit (EvSetMode mode) w in
        Returned (w, VAL_UWT_UNIT_RESULT set_rc)
    end.

(** [uwt_tty_get_winsize(o_tty)]; [(erg, width, height)] is what
    [uv_tty_get_winsize] reports. *)
Definition uwt_tty_get_winsize (erg width height : Z) (w : world) : hvalue :=
  if negb (handle_usable w) then HError EBADF
  else if erg <? 0 then error_result erg
  else HOk (HPair (HInt width) (HInt height)).

(** ** Counting on traces *)

Definition is_free (e : event) : bool :=
  match e with EvFree => true | _ => false end.
Definition is_close (e : event) : bool :=
  match e with EvClose => true | _ => false end.
Definition is_register (e : event) : bool :=
  match e with EvRegister _ _ => true | _ => false end.
Definition is_release (e : event) : bool :=
  match e with EvRelease _ => true | _ => false end.
Definition is_native (e : event) : bool :=
  match e with EvNativeInit _ | EvNativeStart _ | EvSetMode _ => true | _ => false end.

Definition count (p : event -> bool) (tr : list event) : nat :=
  List.length (filter p tr).

(** The number of filled registry slots of the world's handle. *)
Definition live_slots (w : world) : nat :=
  match w_handle w with
  | None => 0
  | Some h =>
      ((if cb_read h then 1 else 0) + (if cb_listen h then 1 else 0))%nat
  end.

(** The handle reached [Closed]: close was requested or the struct is gone. *)
Definition handle_closed (w : world) : bool :=
  match w_handle w with None => true | Some h => close_called h end.

(** ** Tests *)

Definition gr0 : registry := mk_registry [] 0 0.
Definition stat0 : uv_stat := mk_uv_stat 1 2 3 4 5 6 7 8 9 10 11 12 13 14 15 16.
Definition stat1 : uv_stat := mk_uv_stat 1 2 3 4 5 6 7 99 9 10 11 12 13 14 15 16.
Definition nv_ok : native := mk_native 0 0 true.

Example fs_poll_start_ok :
  snd (uwt_fs_poll_start nv_ok (fresh_world gr0 7) (mk_loop true) "/tmp/watched" 100
         (HClosure 3)) = HOk (HHandle 7).
Proof. reflexivity. Qed.

Example fs_poll_start_empty :
  snd (uwt_fs_poll_start nv_ok (fresh_world gr0 7) (mk_loop true) "" 100
         (HClosure 3)) = HError EINVAL.
Proof. reflexivity. Qed.

Example fs_poll_event_ok :
  w_trace (run (fst (uwt_fs_poll_start nv_ok (fresh_world gr0 7) (mk_loop true)
                       "/tmp/watched" 100 (HClosure 3)))
              [OpEvent 0 stat0 stat1; OpClose; OpClose; OpCloseDone])
  = [EvEnlarge; EvAlloc UV_FS_POLL;
     EvNativeInit (mk_handle UV_FS_POLL false false None None);
     EvNativeStart (mk_handle UV_FS_POLL false false None None);
     EvRegister 0 (HClosure 3); EvRegister 1 (HHandle 7);
     EvCallback (HClosure 3) (HHandle 7)
       (HOk (HPair (uwt__stat_to_value stat0) (uwt__stat_to_value stat1)));
     EvRelease 0; EvRelease 1; EvClose; EvFree].
Proof. reflexivity. Qed.

(** ** Lemmas: counting and the lifecycle invariant *)

Ltac count_simpl :=
  unfold count in *; repeat rewrite ?filter_app, ?length_app in *; simpl in *.

Lemma count_app1 (p : event -> bool) (l : list event) (e : event) :
  count p (l ++ [e]) = (count p l + if p e then 1 else 0)%nat.
Proof. count_simpl. destruct (p e); reflexivity. Qed.

(** What the world of one handle keeps true along its life. *)
Definition Inv (w : world) : Prop :=
  count is_register (w_trace w) = (count is_release (w_trace w) + live_slots w)%nat
  /\ (forall h, w_handle w = Some h -> close_called h = true ->
                cb_read h = None /\ cb_listen h = None)
  /\ (forall h, w_handle w = Some h -> count is_free (w_trace w) = 0%nat)
  /\ (count is_free (w_trace w) <= 1)%nat.

Lemma Inv_fresh gr hid : Inv (fresh_world gr hid).
Proof.
  unfold Inv, fresh_world; simpl; repeat split; try discriminate; auto.
Qed.

Lemma unregister_spec (s : slot_sel) (w : world) (h : handle) :
  w_handle w = Some h ->
  w_handle (uwt__gr_unregister s w) = Some (put_slot s None h)
  /\ w_vptr (uwt__gr_unregister s w) = w_vptr w
  /\ w_trace (uwt__gr_unregister s w)
     = w_trace w ++ match get_slot s h with Some k => [EvRelease k] | None => [] end.
Proof.
  intros Hh. unfold uwt__gr_unregister. rewrite Hh.
  destruct (get_slot s h) eqn:E; simpl; rewrite ?app_nil_r; repeat split; auto.
  rewrite Hh. f_equal. destruct s, h; simpl in *; subst; auto.
Qed.

Lemma finalize_close_spec (w : world) (h : handle) :
  w_handle w = Some h -> close_called h = false ->
  w_handle (uwt__handle_finalize_close w)
    = Some (mk_handle (h_kind h) (initialized h) true None None)
  /\ w_vptr (uwt__handle_finalize_close w) = w_vptr w
  /\ w_trace (uwt__handle_finalize_close w)
     = w_trace w
       ++ match cb_read h with Some k => [EvRelease k] | None => [] end
       ++ match cb_listen h with Some k => [EvRelease k] | None => [] end
       ++ [EvClose].
Proof.
  intros Hh Hc. unfold uwt__handle_finalize_close. rewrite Hh, Hc.
  destruct (unregister_spec Cb_read w h Hh) as [H1 [V1 T1]].
  destruct (unregister_spec Cb_listen _ _ H1) as [H2 [V2 T2]].
  unfold emit, set_handle; simpl. rewrite H2, V2, V1, T2, T1.
  destruct h as [k i c r l]; simpl; rewrite <- !app_assoc; auto.
Qed.

Lemma step_Inv (w : world) (o : op) : Inv w -> Inv (step w o).
Proof.
  intros HI. pose proof HI as HI0. unfold step.
  destruct (w_handle w) as [h|] eqn:Hh.
  2:{ destruct o; auto. unfold uwt_close, uwt__handle_finalize_close.
      rewrite Hh. destruct (w_vptr w); auto. }
  destruct HI as [Hreg [Hcl [Hfr Hfr1]]].
  specialize (Hfr h Hh).
  destruct o as [| | st p q].
  - unfold uwt_close. destruct (w_vptr w); [| exact HI0].
    destruct (close_called h) eqn:Hc.
    + unfold uwt__handle_finalize_close. rewrite Hh, Hc. exact HI0.
    + destruct (finalize_close_spec w h Hh Hc) as [H1 [_ T1]].
      unfold Inv, live_slots in *. rewrite H1, T1. rewrite Hh in Hreg.
      simpl. destruct h as [k i c r l]; simpl in *.
      destruct r, l; count_simpl; repeat split; intros; try lia;
        match goal with H : Some _ = Some _ |- _ => inversion H; subst; auto end.
  - destruct (close_called h) eqn:Hc; [| exact HI0].
    destruct (Hcl h Hh Hc) as [Hr Hl].
    unfold Inv, live_slots, uwt__close_cb, emit, set_vptr, set_handle in *.
    rewrite Hh in Hreg. rewrite Hr, Hl in Hreg. simpl.
    count_simpl; repeat split; intros; try discriminate; lia.
  - destruct (close_called h) eqn:Hc; [exact HI0 |].
    destruct (cb_read h) eqn:Hr; [| exact HI0].
    unfold Inv, fs_poll_cb, emit, live_slots in *. rewrite Hh in *. simpl.
    count_simpl; repeat split; intros; auto; try lia;
      inversion H; subst; congruence.
Qed.

Lemma run_Inv (os : list op) : forall w, Inv w -> Inv (run w os).
Proof.
  induction os as [|o os IH]; intros w H; simpl; [exact H |].
  apply IH, step_Inv, H.
Qed.

Lemma enlarge_spec (nv : native) (w : world) :
  let '(w', g) := GR_ROOT_ENLARGE nv w in
  w_handle w' = w_handle w /\ w_vptr w' = w_vptr w /\ w_hid w' = w_hid w
  /\ w_trace w' = w_trace w ++ [EvEnlarge]
  /\ gr_entries (w_gr w') = gr_entries (w_gr w)
  /\ gr_next (w_gr w') = gr_next (w_gr w)
  /\ (g = false -> nv_grow_ok nv = false)
  /\ (g = true -> (List.length (gr_entries (w_gr w)) <= gr_size (w_gr w))%nat ->
      (List.length (gr_entries (w_gr w)) + 2 <= gr_size (w_gr w'))%nat).
Proof.
  unfold GR_ROOT_ENLARGE, GR_ROOT_MARGIN.
  destruct (Nat.leb _ _) eqn:E; [| destruct (nv_grow_ok nv) eqn:G];
    simpl; repeat split; intros; try discriminate; auto.
  - apply Nat.leb_le in E; exact E.
  - lia.
Qed.

Lemma register_spec (s : slot_sel) (v : hvalue) (w : world) :
  let w' := uwt__gr_register s v w in
  let k := gr_next (w_gr w) in
  w_handle w' = option_map (put_slot s (Some k)) (w_handle w)
  /\ w_vptr w' = w_vptr w /\ w_hid w' = w_hid w
  /\ w_gr w' = mk_registry ((k, v) :: gr_entries (w_gr w)) (S k) (gr_size (w_gr w))
  /\ w_trace w' = w_trace w
       ++ (if Nat.ltb (List.length (gr_entries (w_gr w))) (gr_size (w_gr w))
           then [] else [EvGrOverflow])
       ++ [EvRegister k v].
Proof.
  unfold uwt__gr_register.
  destruct (Nat.ltb _ _); simpl; repeat split; auto.
  rewrite <- app_assoc; reflexivity.
Qed.

(** The handle struct as the native fs_poll calls see it. *)
Definition fs_poll_h0 : handle := mk_handle UV_FS_POLL false false None None.

(** The five ways [uwt_fs_poll_start] can end, from the world of a new
    handle. *)
Lemma fs_poll_start_cases (nv : native) (gr : registry) (hid : nat) (lp : loop)
    (path : string) (interval : Z) (cb : hvalue) :
  let '(w, r) := uwt_fs_poll_start nv (fresh_world gr hid) lp path interval cb in
  (w = fresh_world gr hid /\ exists e, r = HError e)
  \/ (w_handle w = None /\ w_trace w = [EvEnlarge] /\ r = HError ENOMEM)
  \/ (nv_init_rc nv < 0 /\ w_handle w = None /\ w_vptr w = false
      /\ r = error_result (nv_init_rc nv)
      /\ w_trace w = [EvEnlarge; EvAlloc UV_FS_POLL; EvNativeInit fs_poll_h0; EvFree])
  \/ (0 <= nv_init_rc nv /\ nv_start_rc nv < 0
      /\ w_handle w = Some (mk_handle UV_FS_POLL false true None None)
      /\ w_vptr w = false /\ r = error_result (nv_start_rc nv)
      /\ w_trace w = [EvEnlarge; EvAlloc UV_FS_POLL; EvNativeInit fs_poll_h0;
                      EvNativeStart fs_poll_h0; EvClose])
  \/ (0 <= nv_init_rc nv /\ 0 <= nv_start_rc nv /\ r = HOk (HHandle hid)
      /\ w_vptr w = true
      /\ exists k ov1 ov2,
           w_handle w = Some (mk_handle UV_FS_POLL false false (Some k) (Some (S k)))
        /\ gr_entries (w_gr w) = (S k, HHandle hid) :: (k, cb) :: gr_entries gr
        /\ w_trace w = [EvEnlarge; EvAlloc UV_FS_POLL; EvNativeInit fs_poll_h0;
                        EvNativeStart fs_poll_h0]
                       ++ ov1 ++ [EvRegister k cb] ++ ov2
                       ++ [EvRegister (S k) (HHandle hid)]
        /\ (forall e, In e (ov1 ++ ov2) -> e = EvGrOverflow)
        /\ ((List.length (gr_entries gr) <= gr_size gr)%nat -> ov1 = [] /\ ov2 = [])).
Proof.
  unfold uwt_fs_poll_start.
  destruct (uwt_is_safe_string path); [| left; split; eauto]. simpl.
  destruct (first_byte_is_nul path); [left; split; eauto |].
  destruct (uint_val_ok interval); [| left; split; eauto]. simpl.
  destruct (loop_init_called lp); [| left; split; eauto]. simpl.
  pose proof (enlarge_spec nv (fresh_world gr hid)) as ES.
  destruct (GR_ROOT_ENLARGE nv (fresh_world gr hid)) as [w1 g].
  destruct ES as [H1 [V1 [I1 [T1 [E1 [N1 [_ G1]]]]]]]. simpl in *.
  destruct g; simpl.
  2:{ right; left. auto. }
  specialize (G1 eq_refl).
  unfold uwt__handle_res_create. simpl.
  destruct (nv_init_rc nv <? 0) eqn:Ei.
  { right; right; left. apply Z.ltb_lt in Ei. unfold uwt__free_handle, emit, set_vptr, set_handle.
    simpl. rewrite T1. repeat split; auto. }
  apply Z.ltb_ge in Ei. simpl.
  destruct (nv_start_rc nv <? 0) eqn:Es.
  { right; right; right; left. apply Z.ltb_lt in Es.
    match goal with |- context [uwt__handle_finalize_close ?X] =>
      destruct (finalize_close_spec X fs_poll_h0 eq_refl eq_refl) as [F1 [_ F3]];
      remember (uwt__handle_finalize_close X) as W eqn:EW end.
    unfold set_vptr; simpl. rewrite F1, F3. simpl. rewrite T1. repeat split; auto. }
  right; right; right; right. apply Z.ltb_ge in Es.
  match goal with |- context [uwt__gr_register Cb_read cb ?X] =>
    remember X as w2 eqn:Ew2 end.
  assert (w_handle w2 = Some fs_poll_h0 /\ w_vptr w2 = true /\ w_gr w2 = w_gr w1
          /\ w_trace w2 = [EvEnlarge; EvAlloc UV_FS_POLL; EvNativeInit fs_poll_h0;
                           EvNativeStart fs_poll_h0]) as [W1 [W2 [W3 W4]]]
    by (subst w2; simpl; rewrite T1; auto).
  pose proof (register_spec Cb_read cb w2) as R1. cbv zeta in R1.
  destruct R1 as [RH1 [RV1 [RI1 [RG1 RT1]]]].
  pose proof (register_spec Cb_listen (HHandle (w_hid w1)) (uwt__gr_register Cb_read cb w2))
    as R2. cbv zeta in R2.
  destruct R2 as [RH2 [RV2 [RI2 [RG2 RT2]]]].
  rewrite RG1 in RH2, RG2, RT2. cbn [gr_next gr_entries gr_size] in RH2, RG2, RT2.
  rewrite RH1, W1 in RH2. cbn [option_map put_slot] in RH2.
  rewrite RT1 in RT2. rewrite W3, W4 in *.
  rewrite I1 in *. rewrite N1, E1 in *. repeat split; auto.
  { rewrite RV2, RV1, W2. reflexivity. }
  exists (gr_next gr),
    (if (Datatypes.length (gr_entries gr) <? gr_size (w_gr w1))%nat
     then [] else [EvGrOverflow]),
    (if (S (Datatypes.length (gr_entries gr)) <? gr_size (w_gr w1))%nat
     then [] else [EvGrOverflow]).
  split; [rewrite RH2; reflexivity |].
  split; [rewrite RG2; reflexivity |].
  split; [rewrite RT2; simpl; rewrite <- app_assoc; reflexivity |].
  split.
  - intros e He.
    destruct (_ <? _)%nat; destruct (_ <? _)%nat; simpl in He; intuition.
  - intros Hwf. specialize (G1 Hwf).
    destruct (Nat.ltb_spec (Datatypes.length (gr_entries gr)) (gr_size (w_gr w1)));
      [| lia].
    destruct (Nat.ltb_spec (S (Datatypes.length (gr_entries gr))) (gr_size (w_gr w1)));
      [| lia].
    auto.
Qed.

(** The tty handle struct as [uv_tty_init] sees it. *)
Definition tty_h1 : handle := mk_handle UV_TTY true false None None.

Lemma tty_init_cases (nv : native) (gr : registry) (hid : nat) (lp : loop) (fd rd : Z) :
  let '(w, r) := uwt_tty_init nv (fresh_world gr hid) lp fd rd in
  (nv_init_rc nv < 0 /\ w_handle w = None /\ w_vptr w = false
   /\ r = error_result (nv_init_rc nv)
   /\ w_trace w = [EvAlloc UV_TTY; EvNativeInit tty_h1; EvFree])
  \/ (0 <= nv_init_rc nv /\ w_handle w = Some tty_h1 /\ w_vptr w = true
      /\ r = HOk (HHandle hid) /\ w_trace w = [EvAlloc UV_TTY; EvNativeInit tty_h1]).
Proof.
  unfold uwt_tty_init, uwt__handle_res_create. simpl.
  destruct (nv_init_rc nv <? 0) eqn:E; simpl.
  - left. apply Z.ltb_lt in E. repeat split; auto.
  - right. apply Z.ltb_ge in E. repeat split; auto.
Qed.

Lemma count_overflows (p : event -> bool) (l : list event) :
  p EvGrOverflow = false -> (forall e, In e l -> e = EvGrOverflow) -> count p l = 0%nat.
Proof.
  intros Hp Hl. induction l as [|e l IH]; [reflexivity |].
  rewrite (Hl e (or_introl eq_refl)). unfold count in *. simpl. rewrite Hp.
  apply IH. intros x Hx. apply Hl. right. exact Hx.
Qed.

Lemma fs_poll_start_Inv (nv : native) (gr : registry) (hid : nat) (lp : loop)
    (path : string) (interval : Z) (cb : hvalue) :
  Inv (fst (uwt_fs_poll_start nv (fresh_world gr hid) lp path interval cb)).
Proof.
  pose proof (fs_poll_start_cases nv gr hid lp path interval cb) as C.
  destruct (uwt_fs_poll_start _ _ _ _ _ _) as [w r]. simpl.
  destruct C as [[-> _] | [[Hh [Ht _]] | [[_ [Hh [_ [_ Ht]]]] |
                 [[_ [_ [Hh [_ [_ Ht]]]]] | [_ [_ [_ [_ [k [o1 [o2 [Hh [_ [Ht [Ho _]]]]]]]]]]]]]]].
  - apply Inv_fresh.
  - unfold Inv, live_slots. rewrite Hh, Ht. count_simpl.
    repeat split; intros; try discriminate; lia.
  - unfold Inv, live_slots. rewrite Hh, Ht. count_simpl.
    repeat split; intros; try discriminate; lia.
  - unfold Inv, live_slots. rewrite Hh, Ht. count_simpl.
    repeat split; intros; try lia;
      match goal with H : Some _ = Some _ |- _ => inversion H; subst; auto end.
  - assert (A : forall p, p EvGrOverflow = false ->
                count p (o1 ++ o2) = 0%nat) by (intros; apply count_overflows; auto).
    pose proof (A is_register eq_refl) as A1. pose proof (A is_release eq_refl) as A2.
    pose proof (A is_free eq_refl) as A3.
    unfold Inv, live_slots. rewrite Hh, Ht. count_simpl.
    repeat split; intros; try discriminate; try lia;
      match goal with H : Some _ = Some _ |- _ => inversion H; subst; simpl in *;
        try discriminate; try lia end.
Qed.

Lemma tty_init_Inv (nv : native) (gr : registry) (hid : nat) (lp : loop) (fd rd : Z) :
  Inv (fst (uwt_tty_init nv (fresh_world gr hid) lp fd rd)).
Proof.
  pose proof (tty_init_cases nv gr hid lp fd rd) as C.
  destruct (uwt_tty_init _ _ _ _ _) as [w r]. simpl.
  destruct C as [[_ [Hh [_ [_ Ht]]]] | [_ [Hh [_ [_ Ht]]]]];
    unfold Inv, live_slots; rewrite Hh, Ht; count_simpl;
    repeat split; intros; try discriminate; try lia;
    match goal with H : Some _ = Some _ |- _ => inversion H; subst; auto end.
Qed.

Lemma Inv_closed_balanced (w : world) :
  Inv w -> handle_closed w = true ->
  count is_register (w_trace w) = count is_release (w_trace w).
Proof.
  intros [Hreg [Hcl _]]. unfold handle_closed, live_slots in *.
  destruct (w_handle w) as [h|]; intros Hc; [| lia].
  destruct (Hcl h eq_refl Hc) as [Hr Hl]. rewrite Hr, Hl in Hreg. lia.
Qed.

Lemma enlarge_heads_trace (tr pre post : list event) (e : event) :
  EvEnlarge :: tr = pre ++ e :: post -> e <> EvEnlarge -> In EvEnlarge pre.
Proof.
  destruct pre as [|x pre]; simpl; intros H Hne; inversion H; subst; auto.
Qed.

(** ** Claims *)

(** C1 (two-phase teardown).  In [uwt_fs_poll_start], when the native init
    call fails, the struct is freed at once (the only action after the
    native init is [EvFree]: no close, no registration or release) and the
    result is [Error(Val_uwt_error code)]; when the native init succeeded
    and the native start fails, the handle goes through the close sequence
    ([EvClose], not a free) and the result is [Error(Val_uwt_error code)],
    the struct being freed once when the native close completes.  In
    [uwt_tty_init], a failed native init frees the struct and returns the
    error.  After either stub, whatever close requests and completions or
    events follow, the free routine runs at most once. *)
Theorem two_phase_teardown (nv : native) (gr : registry) (hid : nat) (lp : loop)
    (path : string) (interval : Z) (cb : hvalue) (fd rd : Z) :
  (let '(w, r) := uwt_fs_poll_start nv (fresh_world gr hid) lp path interval cb in
   (In (EvNativeInit fs_poll_h0) (w_trace w) -> nv_init_rc nv < 0 ->
      r = error_result (nv_init_rc nv)
      /\ w_trace w = [EvEnlarge; EvAlloc UV_FS_POLL; EvNativeInit fs_poll_h0; EvFree])
   /\ (In (EvNativeStart fs_poll_h0) (w_trace w) -> nv_start_rc nv < 0 ->
      r = error_result (nv_start_rc nv)
      /\ w_trace w = [EvEnlarge; EvAlloc UV_FS_POLL; EvNativeInit fs_poll_h0;
                      EvNativeStart fs_poll_h0; EvClose]
      /\ w_trace (step w OpCloseDone) = w_trace w ++ [EvFree])
   /\ (forall os, (count is_free (w_trace (run w os)) <= 1)%nat))
  /\ (let '(w, r) := uwt_tty_init nv (fresh_world gr hid) lp fd rd in
      (nv_init_rc nv < 0 ->
         r = error_result (nv_init_rc nv)
         /\ w_trace w = [EvAlloc UV_TTY; EvNativeInit tty_h1; EvFree])
      /\ (forall os, (count is_free (w_trace (run w os)) <= 1)%nat)).
Proof.
  split.
  - pose proof (fs_poll_start_Inv nv gr hid lp path interval cb) as HI.
    pose proof (fs_poll_start_cases nv gr hid lp path interval cb) as C.
    destruct (uwt_fs_poll_start _ _ _ _ _ _) as [w r]. simpl in HI.
    split; [| split; [| intros os; apply (run_Inv os w HI)]].
    + intros Hin Hneg.
      destruct C as [[-> _] | [[_ [Ht _]] | [[_ [_ [_ [Hr Ht]]]] |
                     [[Hi _] | [Hi _]]]]];
        try (rewrite Ht in Hin); simpl in Hin; try lia; intuition discriminate.
    + intros Hin Hneg.
      destruct C as [[-> _] | [[_ [Ht _]] | [[_ [_ [_ [_ Ht]]]] |
                     [[_ [_ [Hh [_ [Hr Ht]]]]] | [_ [Hs _]]]]]];
        try (rewrite Ht in Hin); simpl in Hin; try lia; try (intuition discriminate).
      split; [exact Hr | split; [exact Ht |]].
      unfold step. rewrite Hh. simpl. reflexivity.
  - pose proof (tty_init_Inv nv gr hid lp fd rd) as HI.
    pose proof (tty_init_cases nv gr hid lp fd rd) as C.
    destruct (uwt_tty_init _ _ _ _ _) as [w r]. simpl in HI.
    split; [| intros os; apply (run_Inv os w HI)].
    intros Hneg. destruct C as [[_ [_ [_ [Hr Ht]]]] | [Hi _]]; [auto | lia].
Qed.

(** C2 (registration cardinality).  [uwt_fs_poll_start] registers exactly
    two registry entries, the callback in [cb_read] and the host handle
    value in [cb_listen], when the native init and start both succeed, and
    none on every failing path; and after any later close requests, close
    completions and events, once the handle is closed the number of
    releases equals the number of registrations. *)
Theorem registration_cardinality (nv : native) (gr : registry) (hid : nat) (lp : loop)
    (path : string) (interval : Z) (cb : hvalue) :
  let '(w, r) := uwt_fs_poll_start nv (fresh_world gr hid) lp path interval cb in
  ((count is_register (w_trace w) = 2%nat
    /\ 0 <= nv_init_rc nv /\ 0 <= nv_start_rc nv /\ r = HOk (HHandle hid)
    /\ exists h, w_handle w = Some h
                 /\ GET_CB_VAL (cb_read h) w = cb
                 /\ GET_CB_VAL (cb_listen h) w = HHandle hid)
   \/ (count is_register (w_trace w) = 0%nat /\ exists e, r = HError e))
  /\ (forall os, handle_closed (run w os) = true ->
      count is_register (w_trace (run w os)) = count is_release (w_trace (run w os))).
Proof.
  pose proof (fs_poll_start_Inv nv gr hid lp path interval cb) as HI.
  pose proof (fs_poll_start_cases nv gr hid lp path interval cb) as C.
  destruct (uwt_fs_poll_start _ _ _ _ _ _) as [w r]. simpl in HI.
  split; [| intros os; apply Inv_closed_balanced, run_Inv, HI].
  destruct C as [[-> He] | [[_ [Ht Hr]] | [[_ [_ [_ [Hr Ht]]]] |
                 [[_ [_ [_ [_ [Hr Ht]]]]] |
                  [Hi [Hs [Hr [_ [k [o1 [o2 [Hh [Hg [Ht [Ho _]]]]]]]]]]]]]]].
  - right. split; [reflexivity | exact He].
  - right. rewrite Ht. split; eauto.
  - right. rewrite Ht. split; eauto.
  - right. rewrite Ht. split; eauto.
  - left. rewrite Ht.
    assert (A : count is_register (o1 ++ o2) = 0%nat)
      by (apply count_overflows; auto).
    count_simpl. repeat split; auto; [lia |].
    exists (mk_handle UV_FS_POLL false false (Some k) (Some (S k))).
    split; [exact Hh |]. unfold GET_CB_VAL. simpl. rewrite Hg. simpl.
    rewrite Nat.eqb_refl.
    replace (match k with 0%nat => false | S m' => Nat.eqb k m' end) with false
      by (destruct k; auto; symmetry; apply Nat.eqb_neq; lia).
    auto.
Qed.

(** A path holding a NUL byte. *)
Definition nul_path : string := String "a"%char (String zero EmptyString).

(** C3 (counterexample).  A call whose path fails the safe-string check
    and whose interval does not fit an unsigned int gets
    [Error ECHARSET], not [Error EINVAL]: the path is checked first. *)
Lemma fs_poll_start_bad_interval_not_einval :
  uwt_is_safe_string nul_path = false /\ uint_val_ok (-1) = false
  /\ snd (uwt_fs_poll_start nv_ok (fresh_world gr0 0) (mk_loop true) nul_path (-1) HUnit)
     = HError ECHARSET
  /\ HError ECHARSET <> HError EINVAL.
Proof. repeat split; try reflexivity. discriminate. Qed.

(** C3 (amended).  When the path fails the safe-string check, is empty,
    or the interval does not fit an unsigned int, [uwt_fs_poll_start]
    returns at once with the world unchanged (no handle, no registry
    request, no native call): [Error ECHARSET] when the path fails the
    safe-string check, whatever the interval, and [Error EINVAL]
    otherwise. *)
Theorem fs_poll_start_validation (nv : native) (w : world) (lp : loop)
    (path : string) (interval : Z) (cb : hvalue) :
  (uwt_is_safe_string path = false \/ path = EmptyString \/ uint_val_ok interval = false) ->
  let '(w', r) := uwt_fs_poll_start nv w lp path interval cb in
  w' = w /\ r = HError (if uwt_is_safe_string path then EINVAL else ECHARSET).
Proof.
  intros Hv. unfold uwt_fs_poll_start.
  destruct (uwt_is_safe_string path) eqn:Hs; simpl; [| auto].
  destruct (first_byte_is_nul path) eqn:Hn; [auto |].
  destruct (uint_val_ok interval) eqn:Hi; simpl; [| auto].
  destruct Hv as [H | [H | H]]; [discriminate | subst; discriminate | discriminate].
Qed.

Lemma fs_poll_start_validation_witness :
  (uwt_is_safe_string "" = false \/ ""%string = EmptyString \/ uint_val_ok 100 = false)
  /\ (let '(w', r) := uwt_fs_poll_start nv_ok (fresh_world gr0 0) (mk_loop true) "" 100 HUnit in
      w' = fresh_world gr0 0 /\ r = HError (if uwt_is_safe_string "" then EINVAL else ECHARSET)).
Proof.
  split; [right; left; reflexivity |].
  apply (fs_poll_start_validation nv_ok (fresh_world gr0 0) (mk_loop true) "" 100 HUnit).
  right; left; reflexivity.
Defined.

(** C4 (dispatcher result delivery).  One run of the trampoline
    [fs_poll_cb] on a handle whose slots pin [cb] and [t] invokes the user
    callback exactly once, with [t] and [Error(Val_uwt_error status)] for a
    negative status or [Ok] of the pair of copies of the two stat records
    otherwise; the handle and the registry are unchanged. *)
Theorem fs_poll_cb_dispatch (w : world) (h : handle) (cb t : hvalue) (status : Z)
    (prev curr : uv_stat) :
  w_handle w = Some h -> GET_CB_VAL (cb_read h) w = cb -> GET_CB_VAL (cb_listen h) w = t ->
  let w' := fs_poll_cb w status prev curr in
  w_trace w' = w_trace w
    ++ [EvCallback cb t
          (if status <? 0 then HError (Val_uwt_error status)
           else HOk (HPair (uwt__stat_to_value prev) (uwt__stat_to_value curr)))]
  /\ w_handle w' = w_handle w /\ w_vptr w' = w_vptr w /\ w_gr w' = w_gr w.
Proof.
  intros Hh Hr Hl. unfold fs_poll_cb. rewrite Hh. simpl.
  rewrite Hr, Hl. auto.
Qed.

(** The world of a started poll handle, for the witnesses. *)
Definition started_world : world :=
  fst (uwt_fs_poll_start nv_ok (fresh_world gr0 7) (mk_loop true) "/tmp/watched" 100
         (HClosure 3)).

Definition started_handle : handle := mk_handle UV_FS_POLL false false (Some 0%nat) (Some 1%nat).

Lemma fs_poll_cb_dispatch_witness :
  w_handle started_world = Some started_handle
  /\ GET_CB_VAL (cb_read started_handle) started_world = HClosure 3
  /\ GET_CB_VAL (cb_listen started_handle) started_world = HHandle 7
  /\ w_trace (fs_poll_cb started_world 0 stat0 stat1) = w_trace started_world
       ++ [EvCallback (HClosure 3) (HHandle 7)
             (if 0 <? 0 then HError (Val_uwt_error 0)
              else HOk (HPair (uwt__stat_to_value stat0) (uwt__stat_to_value stat1)))].
Proof.
  split; [reflexivity |]. split; [reflexivity |]. split; [reflexivity |].
  apply (fs_poll_cb_dispatch started_world started_handle (HClosure 3) (HHandle 7) 0
           stat0 stat1); reflexivity.
Defined.

(** C5 (counterexample).  The flag does not track native init success in
    either stub.  [uwt_tty_init] sets [initialized] before it calls
    [uv_tty_init]: the native init call sees the flag already true, here on
    a call that fails.  [uwt_fs_poll_start] never sets it: after
    [uv_fs_poll_init] and [uv_fs_poll_start] both succeed, the started
    handle still has [initialized = false]. *)
Lemma initialized_flag_counterexample :
  (let '(w, r) := uwt_tty_init (mk_native (-22) 0 true) (fresh_world gr0 0) (mk_loop true) 5 1 in
   (exists h, In (EvNativeInit h) (w_trace w) /\ initialized h = true)
   /\ r = HError EINVAL)
  /\ (let '(w, r) := uwt_fs_poll_start nv_ok (fresh_world gr0 0) (mk_loop true) "/tmp/x" 100
                       (HClosure 1) in
      r = HOk (HHandle 0)
      /\ In (EvNativeInit fs_poll_h0) (w_trace w) /\ In (EvNativeStart fs_poll_h0) (w_trace w)
      /\ exists h, w_handle w = Some h /\ initialized h = false).
Proof.
  split.
  - simpl. split; [| reflexivity].
    exists tty_h1. split; [right; left; reflexivity | reflexivity].
  - simpl. split; [reflexivity |].
    split; [right; right; left; reflexivity |].
    split; [right; right; right; left; reflexivity |].
    eexists. split; reflexivity.
Qed.

(** C5 (amended).  [uwt_tty_init] marks the handle initialized before the
    native init call (the call always sees the flag true); when that call
    fails the struct is freed and the host value's pointer cleared, so no
    such handle reaches the caller; when it succeeds the returned handle
    has [initialized = true].  [uwt_fs_poll_start] never writes the flag:
    the handle it passes to [uv_fs_poll_init] and [uv_fs_poll_start], and
    the handle it leaves behind on any path (also a started one), has
    [initialized = false], the value [uwt__handle_res_create] gave it. *)
Theorem initialized_flag_amended (nv : native) (gr : registry) (hid : nat) (lp : loop)
    (fd rd : Z) (path : string) (interval : Z) (cb : hvalue) :
  (let '(w, r) := uwt_tty_init nv (fresh_world gr hid) lp fd rd in
   (forall h, In (EvNativeInit h) (w_trace w) -> initialized h = true)
   /\ (nv_init_rc nv < 0 ->
         w_handle w = None /\ w_vptr w = false /\ r = error_result (nv_init_rc nv))
   /\ (0 <= nv_init_rc nv ->
         r = HOk (HHandle hid) /\ exists h, w_handle w = Some h /\ initialized h = true))
  /\ (let '(w, r) := uwt_fs_poll_start nv (fresh_world gr hid) lp path interval cb in
      (forall h, In (EvNativeInit h) (w_trace w) \/ In (EvNativeStart h) (w_trace w) ->
                 initialized h = false)
      /\ (forall h, w_handle w = Some h -> initialized h = false)).
Proof.
  split.
  - pose proof (tty_init_cases nv gr hid lp fd rd) as C.
    destruct (uwt_tty_init _ _ _ _ _) as [w r].
    destruct C as [[Hi [Hh [Hv [Hr Ht]]]] | [Hi [Hh [Hv [Hr Ht]]]]];
      rewrite Ht; repeat split; intros; try lia; auto.
    + simpl in H. destruct H as [H | [H | [H | []]]]; try discriminate.
      injection H as <-; reflexivity.
    + simpl in H. destruct H as [H | [H | []]]; try discriminate.
      injection H as <-; reflexivity.
    + exists tty_h1; auto.
  - pose proof (fs_poll_start_cases nv gr hid lp path interval cb) as C.
    destruct (uwt_fs_poll_start _ _ _ _ _ _) as [w r].
    assert (N : forall tr h, (forall e, In e tr -> e = EvGrOverflow) ->
                  ~ (In (EvNativeInit h) tr \/ In (EvNativeStart h) tr)).
    { intros tr h Ho [Hn | Hn]; apply Ho in Hn; discriminate. }
    destruct C as [[Hw _] | [[Hh [Ht _]] | [[_ [Hh [_ [_ Ht]]]]
                 | [[_ [_ [Hh [_ [_ Ht]]]]] | [_ [_ [_ [_ [k [ov1 [ov2 [Hh [_ [Ht [Ho _]]]]]]]]]]]]]]].
    + subst w. simpl. split; [intros h [[] | []] | discriminate].
    + rewrite Hh, Ht. split; [| discriminate].
      intros h [H | H]; simpl in H; destruct H as [H | []]; discriminate.
    + rewrite Hh, Ht. split; [| discriminate].
      intros h [H | H]; simpl in H; destruct H as [H | [H | [H | [H | []]]]];
        try discriminate; injection H as <-; reflexivity.
    + rewrite Hh, Ht. split; [| intros h E; injection E as <-; reflexivity].
      intros h [H | H]; simpl in H; destruct H as [H | [H | [H | [H | [H | []]]]]];
        try discriminate; injection H as <-; reflexivity.
    + rewrite Hh, Ht. split; [| intros h E; injection E as <-; reflexivity].
      intros h H.
      assert (P : In (EvNativeInit h) [EvEnlarge; EvAlloc UV_FS_POLL; EvNativeInit fs_poll_h0;
                                       EvNativeStart fs_poll_h0]
                  \/ In (EvNativeStart h) [EvEnlarge; EvAlloc UV_FS_POLL;
                                            EvNativeInit fs_poll_h0; EvNativeStart fs_poll_h0]).
      { destruct H as [H | H]; apply in_app_iff in H;
          (destruct H as [H | H]; [auto |]); exfalso;
          repeat (apply in_app_iff in H; destruct H as [H | H]);
          try (apply (N ov1 h (fun e He => Ho e (in_or_app _ _ _ (or_introl He))));
               auto; fail);
          try (apply (N ov2 h (fun e He => Ho e (in_or_app _ _ _ (or_intror He))));
               auto; fail);
          simpl in H; destruct H as [H | []]; discriminate. }
      destruct P as [P | P]; simpl in P;
        destruct P as [P | [P | [P | [P | []]]]]; try discriminate;
        injection P as <-; reflexivity.
Qed.

(** C6 (terminal mode mapping).  On a handle that passes the guard,
    [uwt_tty_set_mode_na] passes mode 0 as [UV_TTY_MODE_NORMAL], 1 as
    [UV_TTY_MODE_RAW] and 2 as [UV_TTY_MODE_IO] to [uv_tty_set_mode]; any
    other mode stops the process on the assertion when assertions are
    compiled in, and is passed as [UV_TTY_MODE_NORMAL] when they are
    compiled out. *)
Theorem tty_set_mode_mapping (ndebug : bool) (rc : Z) (w : world) (m : Z) :
  handle_usable w = true ->
  (m = 0 -> uwt_tty_set_mode_na ndebug rc w m
            = Returned (emit (EvSetMode UV_TTY_MODE_NORMAL) w, VAL_UWT_UNIT_RESULT rc))
  /\ (m = 1 -> uwt_tty_set_mode_na ndebug rc w m
               = Returned (emit (EvSetMode UV_TTY_MODE_RAW) w, VAL_UWT_UNIT_RESULT rc))
  /\ (m = 2 -> uwt_tty_set_mode_na ndebug rc w m
               = Returned (emit (EvSetMode UV_TTY_MODE_IO) w, VAL_UWT_UNIT_RESULT rc))
  /\ (~ (0 <= m <= 2) ->
        uwt_tty_set_mode_na false rc w m = Aborted
        /\ uwt_tty_set_mode_na true rc w m
           = Returned (emit (EvSetMode UV_TTY_MODE_NORMAL) w, VAL_UWT_UNIT_RESULT rc)).
Proof.
  intros Hu. unfold uwt_tty_set_mode_na, tty_mode_switch. rewrite Hu. simpl.
  repeat split; intros; subst; try reflexivity.
  - destruct (Z.eqb_spec m 2); [lia |]. destruct (Z.eqb_spec m 1); [lia |].
    destruct (Z.eqb_spec m 0); [lia |]. reflexivity.
  - destruct (Z.eqb_spec m 2); [lia |]. destruct (Z.eqb_spec m 1); [lia |].
    destruct (Z.eqb_spec m 0); [lia |]. reflexivity.
Qed.

(** A live tty handle, for the witnesses. *)
Definition tty_world : world :=
  fst (uwt_tty_init nv_ok (fresh_world gr0 4) (mk_loop true) 0 1).

Lemma tty_set_mode_mapping_witness :
  handle_usable tty_world = true
  /\ uwt_tty_set_mode_na false 0 tty_world 5 = Aborted.
Proof.
  split; [reflexivity |].
  apply (tty_set_mode_mapping false 0 tty_world 5); [reflexivity | lia].
Defined.

(** C7 (setOption failure is not fatal).  When [uv_tty_set_mode] rejects
    the mode with a negative code, [uwt_tty_set_mode_na] returns
    [Error(Val_uwt_error code)] as a value and leaves the handle struct,
    its registry slots, the host pointer and the registry unchanged; the
    handle stays usable. *)
Theorem tty_set_mode_error_not_fatal (ndebug : bool) (rc : Z) (w : world) (m : Z) :
  handle_usable w = true -> rc < 0 -> (0 <= m <= 2 \/ ndebug = true) ->
  exists w', uwt_tty_set_mode_na ndebug rc w m = Returned (w', error_result rc)
    /\ w_handle w' = w_handle w /\ w_vptr w' = w_vptr w /\ w_gr w' = w_gr w
    /\ handle_usable w' = true.
Proof.
  intros Hu Hrc Hm. unfold uwt_tty_set_mode_na, VAL_UWT_UNIT_RESULT. rewrite Hu. simpl.
  assert (exists mode, tty_mode_switch ndebug m = Returned mode) as [mode Hmode].
  { unfold tty_mode_switch.
    destruct (Z.eqb_spec m 2); [eauto |]. destruct (Z.eqb_spec m 1); [eauto |].
    destruct (Z.eqb_spec m 0); [eauto |].
    destruct Hm as [Hm | ->]; [lia | simpl; eauto]. }
  rewrite Hmode. exists (emit (EvSetMode mode) w).
  apply Z.ltb_lt in Hrc. rewrite Hrc. repeat split; auto.
Qed.

Lemma tty_set_mode_error_not_fatal_witness :
  handle_usable tty_world = true /\ -1 < 0 /\ (0 <= 2 <= 2 \/ false = true)
  /\ exists w', uwt_tty_set_mode_na false (-1) tty_world 2 = Returned (w', error_result (-1))
    /\ w_handle w' = w_handle tty_world /\ w_vptr w' = w_vptr tty_world
    /\ w_gr w' = w_gr tty_world /\ handle_usable w' = true.
Proof.
  split; [reflexivity |]. split; [lia |]. split; [left; lia |].
  apply tty_set_mode_error_not_fatal; [reflexivity | lia | left; lia].
Defined.

(** C8 (enlarge before pin).  From a well-formed registry, a run of
    [uwt_fs_poll_start] never overruns the registry, and every
    registration it makes is preceded by the enlargement request of the
    same run. *)
Theorem enlarge_before_register (nv : native) (gr : registry) (hid : nat) (lp : loop)
    (path : string) (interval : Z) (cb : hvalue) :
  (List.length (gr_entries gr) <= gr_size gr)%nat ->
  let '(w, r) := uwt_fs_poll_start nv (fresh_world gr hid) lp path interval cb in
  ~ In EvGrOverflow (w_trace w)
  /\ (forall pre k v post, w_trace w = pre ++ EvRegister k v :: post -> In EvEnlarge pre).
Proof.
  intros Hwf.
  pose proof (fs_poll_start_cases nv gr hid lp path interval cb) as C.
  destruct (uwt_fs_poll_start _ _ _ _ _ _) as [w r].
  destruct C as [[-> _] | [[_ [Ht _]] | [[_ [_ [_ [_ Ht]]]] |
                 [[_ [_ [_ [_ [_ Ht]]]]] |
                  [_ [_ [_ [_ [k [o1 [o2 [_ [_ [Ht [_ Hov]]]]]]]]]]]]]]].
  - simpl. split; [auto |]. intros pre k v post H.
    destruct pre; discriminate.
  - rewrite Ht. split; [simpl; intuition discriminate |].
    intros pre k v post H. eapply enlarge_heads_trace; [exact H | discriminate].
  - rewrite Ht. split; [simpl; intuition discriminate |].
    intros pre k v post H. eapply enlarge_heads_trace; [exact H | discriminate].
  - rewrite Ht. split; [simpl; intuition discriminate |].
    intros pre k v post H. eapply enlarge_heads_trace; [exact H | discriminate].
  - destruct (Hov Hwf) as [-> ->]. rewrite Ht.
    split; [simpl; intuition discriminate |].
    intros pre k' v post H. eapply enlarge_heads_trace; [exact H | discriminate].
Qed.

Lemma enlarge_before_register_witness :
  (List.length (gr_entries gr0) <= gr_size gr0)%nat
  /\ ~ In EvGrOverflow (w_trace started_world).
Proof.
  split; [simpl; lia |].
  exact (proj1 (enlarge_before_register nv_ok gr0 7 (mk_loop true) "/tmp/watched" 100
                  (HClosure 3) (le_n 0))).
Defined.

(** C10 (counterexample).  A failing [uv_tty_init] that reports
    [UV_EINVAL] makes [uwt_tty_init] return [Error EINVAL], the very value
    [uwt_fs_poll_start] returns for an empty path before any native call. *)
Lemma tty_init_native_einval_is_validation_value :
  snd (uwt_tty_init (mk_native (-22) 0 true) (fresh_world gr0 0) (mk_loop true) 5 1)
  = uwt__alloc_eresult EINVAL
  /\ snd (uwt_fs_poll_start nv_ok (fresh_world gr0 0) (mk_loop true) "" 100 HUnit)
     = uwt__alloc_eresult EINVAL.
Proof. split; reflexivity. Qed.

(** C10 (amended).  [uwt_tty_init] makes no host-side check: it always
    calls [uv_tty_init]; every [Error e] it returns is
    [e = Val_uwt_error code] for the negative code of that call (a native
    [UV_EINVAL] or [UV_ECHARSET] gives the same [EINVAL] or [ECHARSET] the
    validations of other stubs use), after the wrapper has been freed and
    the host value's pointer cleared; a non-negative code gives [Ok]. *)
Theorem tty_init_no_validation (nv : native) (gr : registry) (hid : nat) (lp : loop)
    (fd rd : Z) :
  let '(w, r) := uwt_tty_init nv (fresh_world gr hid) lp fd rd in
  In (EvNativeInit tty_h1) (w_trace w)
  /\ (forall e, r = HError e ->
        nv_init_rc nv < 0 /\ e = Val_uwt_error (nv_init_rc nv)
        /\ w_trace w = [EvAlloc UV_TTY; EvNativeInit tty_h1; EvFree]
        /\ w_handle w = None /\ w_vptr w = false)
  /\ (0 <= nv_init_rc nv -> r = HOk (HHandle hid)).
Proof.
  pose proof (tty_init_cases nv gr hid lp fd rd) as C.
  destruct (uwt_tty_init _ _ _ _ _) as [w r].
  destruct C as [[Hi [Hh [Hv [Hr Ht]]]] | [Hi [Hh [Hv [Hr Ht]]]]];
    rewrite Ht; (split; [simpl; auto |]); split; intros; subst; try lia.
  - unfold error_result in H. injection H as <-. auto.
  - discriminate.
  - reflexivity.
Qed.

(** ** Further properties of the stubs *)

Lemma unregister_gr (s : slot_sel) (w : world) (h : handle) (k : nat) :
  w_handle w = Some h -> get_slot s h = Some k ->
  gr_entries (w_gr (uwt__gr_unregister s w))
  = filter (fun p => negb (Nat.eqb (fst p) k)) (gr_entries (w_gr w)).
Proof. intros Hh Hs. unfold uwt__gr_unregister. rewrite Hh, Hs. reflexivity. Qed.

Lemma unregister_gr_none (s : slot_sel) (w : world) (h : handle) :
  w_handle w = Some h -> get_slot s h = None -> w_gr (uwt__gr_unregister s w) = w_gr w.
Proof. intros Hh Hs. unfold uwt__gr_unregister. rewrite Hh, Hs. reflexivity. Qed.

Lemma finalize_close_gr_empty (w : world) (h : handle) :
  w_handle w = Some h -> cb_read h = None -> cb_listen h = None ->
  w_gr (uwt__handle_finalize_close w) = w_gr w.
Proof.
  intros Hh Hr Hl. unfold uwt__handle_finalize_close. rewrite Hh.
  destruct (close_called h); [reflexivity |]. simpl.
  unfold uwt__gr_unregister at 2. rewrite Hh. simpl. rewrite Hr.
  unfold uwt__gr_unregister. rewrite Hh. simpl. rewrite Hl. reflexivity.
Qed.

Ltac fresh_case := left; split; [reflexivity | split; [reflexivity | eexists; reflexivity]].

(** The outcome of [uwt_fs_poll_start] split by its checks, with the state
    of the registry. *)
Lemma fs_poll_start_cases_gr (nv : native) (gr : registry) (hid : nat) (lp : loop)
    (path : string) (interval : Z) (cb : hvalue) :
  let '(w, r) := uwt_fs_poll_start nv (fresh_world gr hid) lp path interval cb in
  (fs_poll_checks lp path interval = false /\ w = fresh_world gr hid
   /\ exists e, r = HError e)
  \/ (fs_poll_checks lp path interval = true
      /\ (nv_grow_ok nv = true -> In (EvNativeInit fs_poll_h0) (w_trace w))
      /\ ((exists e, r = HError e) /\ gr_entries (w_gr w) = gr_entries gr
          \/ r = HOk (HHandle hid) /\ w_vptr w = true
             /\ w_handle w = Some (mk_handle UV_FS_POLL false false
                                     (Some (gr_next gr)) (Some (S (gr_next gr))))
             /\ gr_entries (w_gr w)
                = (S (gr_next gr), HHandle hid) :: (gr_next gr, cb) :: gr_entries gr)).
Proof.
  unfold uwt_fs_poll_start, fs_poll_checks.
  destruct (uwt_is_safe_string path); [| fresh_case]. simpl.
  destruct (first_byte_is_nul path); [fresh_case |]. simpl.
  destruct (uint_val_ok interval); [| fresh_case]. simpl.
  destruct (loop_init_called lp); [| fresh_case]. simpl.
  pose proof (enlarge_spec nv (fresh_world gr hid)) as ES.
  destruct (GR_ROOT_ENLARGE nv (fresh_world gr hid)) as [w1 g].
  destruct ES as [H1 [V1 [I1 [T1 [E1 [N1 [G0 _]]]]]]]. simpl in *.
  destruct g; simpl.
  2:{ right. split; [reflexivity |]. split.
      - intros G. rewrite G0 in G by reflexivity. discriminate.
      - left. split; eauto. }
  unfold uwt__handle_res_create. simpl.
  destruct (nv_init_rc nv <? 0) eqn:Ei.
  { right. split; [reflexivity |]. simpl. rewrite T1. split.
    - intros _. simpl. auto.
    - left. unfold error_result. split; eauto. }
  simpl.
  destruct (nv_start_rc nv <? 0) eqn:Es.
  { right. split; [reflexivity |].
    match goal with |- context [uwt__handle_finalize_close ?X] =>
      destruct (finalize_close_spec X fs_poll_h0 eq_refl eq_refl) as [F1 [_ F3]];
      assert (FG : w_gr (uwt__handle_finalize_close X) = w_gr w1)
        by (rewrite (finalize_close_gr_empty X fs_poll_h0); reflexivity);
      remember (uwt__handle_finalize_close X) as W eqn:EW end.
    unfold set_vptr; simpl. rewrite F3, FG. simpl. rewrite T1. split.
    - intros _. simpl. auto.
    - left. unfold error_result. split; eauto. }
  right. split; [reflexivity |].
  match goal with |- context [uwt__gr_register Cb_read cb ?X] =>
    remember X as w2 eqn:Ew2 end.
  assert (w_handle w2 = Some fs_poll_h0 /\ w_gr w2 = w_gr w1 /\ w_vptr w2 = true
          /\ w_trace w2 = [EvEnlarge; EvAlloc UV_FS_POLL; EvNativeInit fs_poll_h0;
                           EvNativeStart fs_poll_h0]) as [W1 [W3 [W5 W4]]]
    by (subst w2; simpl; rewrite T1; auto).
  pose proof (register_spec Cb_read cb w2) as R1. cbv zeta in R1.
  destruct R1 as [RH1 [RV1 [_ [RG1 RT1]]]].
  pose proof (register_spec Cb_listen (HHandle (w_hid w1)) (uwt__gr_register Cb_read cb w2))
    as R2. cbv zeta in R2.
  destruct R2 as [RH2 [RV2 [_ [RG2 RT2]]]].
  rewrite RG1 in RH2, RG2, RT2. cbn [gr_next gr_entries gr_size] in RH2, RG2, RT2.
  rewrite RH1, W1 in RH2. cbn [option_map put_slot] in RH2.
  rewrite RT1 in RT2. rewrite W3, W4 in *. rewrite I1 in *. rewrite N1, E1 in *.
  split.
  - intros _. rewrite RT2. simpl. auto.
  - right. split; [reflexivity |]. split; [rewrite RV2, RV1; exact W5 |].
    split; [rewrite RH2; reflexivity |].
    rewrite RG2. reflexivity.
Qed.

Lemma step_keeps_closed (w : world) (o : op) :
  handle_closed w = true -> handle_closed (step w o) = true.
Proof.
  unfold handle_closed. intros Hc.
  destruct (w_handle w) as [h|] eqn:Hh; destruct o; simpl; rewrite ?Hh;
    try reflexivity.
  - unfold uwt_close. destruct (w_vptr w); [| rewrite Hh; exact Hc].
    unfold uwt__handle_finalize_close. rewrite Hh, Hc, Hh. exact Hc.
  - rewrite Hc. unfold uwt__close_cb. reflexivity.
  - rewrite Hc, Hh. exact Hc.
  - unfold uwt_close. destruct (w_vptr w); [| rewrite Hh; reflexivity].
    unfold uwt__handle_finalize_close. rewrite Hh, Hh. reflexivity.
Qed.

Lemma run_keeps_closed (os : list op) (w : world) :
  handle_closed w = true -> handle_closed (run w os) = true.
Proof.
  revert w. induction os as [|o os IH]; intros w Hc; simpl; [exact Hc |].
  apply IH, step_keeps_closed, Hc.
Qed.

Lemma closed_not_usable (w : world) :
  handle_closed w = true -> handle_usable w = false.
Proof.
  unfold handle_closed, handle_usable. destruct (w_handle w) as [h|]; [| reflexivity].
  intros Hc. rewrite Hc. destruct (w_vptr w && initialized h); reflexivity.
Qed.

Lemma safe_first_byte (p : string) :
  uwt_is_safe_string p = true -> (first_byte_is_nul p = true <-> p = EmptyString).
Proof.
  destruct p as [|c p']; simpl; [tauto |].
  intros H. apply andb_prop in H. destruct H as [H _].
  destruct (Ascii.eqb c zero); simpl in H; [discriminate |]. split; discriminate.
Qed.

Lemma fs_poll_checks_spec (lp : loop) (path : string) (interval : Z) :
  uwt_is_safe_string path = true -> loop_init_called lp = true ->
  (fs_poll_checks lp path interval = true
   <-> path <> EmptyString /\ 0 <= interval <= UINT_MAX).
Proof.
  intros Hs Hl. unfold fs_poll_checks, uint_val_ok. rewrite Hs, Hl.
  pose proof (safe_first_byte path Hs) as F.
  destruct (first_byte_is_nul path); simpl.
  - split; [discriminate |]. intros [Hp _]. exfalso. apply Hp, F. reflexivity.
  - rewrite andb_true_r, andb_true_iff, Z.leb_le, Z.leb_le.
    split; [intros H; split; [intros E; apply F in E; discriminate | lia] | lia].
Qed.

Lemma filter_all_true {A : Type} (f : A -> bool) (l : list A) :
  (forall x, In x l -> f x = true) -> filter f l = l.
Proof.
  induction l as [|x l IH]; intros H; simpl; [reflexivity |].
  rewrite (H x (or_introl eq_refl)), IH; [reflexivity |].
  intros y Hy. apply H. right. exact Hy.
Qed.

(** X1.  [uwt_tty_get_winsize] on the handle [uwt_tty_init] made: after a
    successful init the size [uv_tty_get_winsize] reports comes back as
    [Ok (width, height)], or as [Error (Val_uwt_error erg)] if that call
    fails; after a failed init the handle is gone and the stub answers
    [Error EBADF] whatever the native layer would say. *)
Theorem tty_get_winsize_after_init (nv : native) (gr : registry) (hid : nat) (lp : loop)
    (fd rd erg width height : Z) :
  uwt_tty_get_winsize erg width height (fst (uwt_tty_init nv (fresh_world gr hid) lp fd rd))
  = if nv_init_rc nv <? 0 then HError EBADF
    else if erg <? 0 then error_result erg
    else HOk (HPair (HInt width) (HInt height)).
Proof.
  pose proof (tty_init_cases nv gr hid lp fd rd) as C.
  destruct (uwt_tty_init nv (fresh_world gr hid) lp fd rd) as [w r]. simpl fst.
  unfold uwt_tty_get_winsize, handle_usable.
  destruct C as [[E [Hh _]] | [E [Hh [Hv _]]]]; rewrite Hh.
  - apply Z.ltb_lt in E. rewrite E. reflexivity.
  - rewrite Hv. apply Z.ltb_ge in E. rewrite E. reflexivity.
Qed.

(** X2.  Once a close has been requested on the handle [uwt_tty_init]
    returned (or its init failed), whatever happens next, neither
    [uwt_tty_set_mode_na] nor [uwt_tty_get_winsize] reaches the native
    layer: both answer [Error EBADF] and leave the world unchanged, even for
    an out-of-range mode with assertions enabled, since the handle check
    comes before the [switch]. *)
Theorem tty_ops_refused_after_close (nv : native) (gr : registry) (hid : nat) (lp : loop)
    (fd rd : Z) (os : list op) (ndebug : bool) (set_rc o_mode erg width height : Z) :
  let w := run (fst (uwt_tty_init nv (fresh_world gr hid) lp fd rd)) (OpClose :: os) in
  uwt_tty_set_mode_na ndebug set_rc w o_mode = Returned (w, HError EBADF)
  /\ uwt_tty_get_winsize erg width height w = HError EBADF.
Proof.
  pose proof (tty_init_cases nv gr hid lp fd rd) as C.
  destruct (uwt_tty_init nv (fresh_world gr hid) lp fd rd) as [w0 r]. simpl fst.
  assert (Hc : handle_closed (step w0 OpClose) = true).
  { destruct C as [[_ [Hh _]] | [_ [Hh [Hv _]]]].
    - apply step_keeps_closed. unfold handle_closed. rewrite Hh. reflexivity.
    - simpl. unfold uwt_close. rewrite Hv.
      destruct (finalize_close_spec w0 tty_h1 Hh eq_refl) as [F1 _].
      unfold handle_closed. rewrite F1. reflexivity. }
  cbv zeta. change (run w0 (OpClose :: os)) with (run (step w0 OpClose) os).
  pose proof (closed_not_usable _ (run_keeps_closed os _ Hc)) as U.
  unfold uwt_tty_set_mode_na, uwt_tty_get_winsize. rewrite U. split; reflexivity.
Qed.

(** X3.  [uwt_tty_set_mode_na] never touches the handle, its host pointer
    or the registry: when it returns, either the handle check refused it
    ([Error EBADF], nothing done), or it made exactly one [uv_tty_set_mode]
    call with one of the three libuv modes and returns
    [VAL_UWT_UNIT_RESULT] of that call's code. *)
Theorem tty_set_mode_frame (ndebug : bool) (set_rc : Z) (w : world) (o_mode : Z)
    (w' : world) (r : hvalue) :
  uwt_tty_set_mode_na ndebug set_rc w o_mode = Returned (w', r) ->
  w_handle w' = w_handle w /\ w_vptr w' = w_vptr w /\ w_gr w' = w_gr w
  /\ ((w' = w /\ r = HError EBADF /\ handle_usable w = false)
      \/ (handle_usable w = true
          /\ exists mode, w_trace w' = w_trace w ++ [EvSetMode mode]
                         /\ r = VAL_UWT_UNIT_RESULT set_rc
                         /\ (mode = UV_TTY_MODE_NORMAL \/ mode = UV_TTY_MODE_RAW
                             \/ mode = UV_TTY_MODE_IO))).
Proof.
  unfold uwt_tty_set_mode_na.
  destruct (handle_usable w) eqn:U; simpl.
  2:{ intros E. injection E as <- <-. repeat split; auto. }
  assert (M : forall m, tty_mode_switch ndebug o_mode = Returned m ->
                m = UV_TTY_MODE_NORMAL \/ m = UV_TTY_MODE_RAW \/ m = UV_TTY_MODE_IO).
  { unfold tty_mode_switch. intros m.
    destruct (o_mode =? 2); [intros E; injection E; auto |].
    destruct (o_mode =? 1); [intros E; injection E; auto |].
    destruct (o_mode =? 0); [intros E; injection E; auto |].
    destruct ndebug; [intros E; injection E; auto | discriminate]. }
  destruct (tty_mode_switch ndebug o_mode) as [m|] eqn:Em; [| discriminate].
  intros E. injection E as <- <-. simpl. repeat split; auto.
  right. split; [reflexivity |]. exists m. split; [reflexivity |].
  split; [reflexivity | apply M; reflexivity].
Qed.

Lemma tty_set_mode_frame_witness :
  uwt_tty_set_mode_na false (-22)
    (fst (uwt_tty_init nv_ok (fresh_world gr0 1) (mk_loop true) 0 1)) 1
  = Returned (emit (EvSetMode UV_TTY_MODE_RAW)
               (fst (uwt_tty_init nv_ok (fresh_world gr0 1) (mk_loop true) 0 1)),
              error_result (-22))
  /\ w_gr (emit (EvSetMode UV_TTY_MODE_RAW)
               (fst (uwt_tty_init nv_ok (fresh_world gr0 1) (mk_loop true) 0 1)))
     = w_gr (fst (uwt_tty_init nv_ok (fresh_world gr0 1) (mk_loop true) 0 1)).
Proof.
  assert (E : uwt_tty_set_mode_na false (-22)
    (fst (uwt_tty_init nv_ok (fresh_world gr0 1) (mk_loop true) 0 1)) 1
    = Returned (emit (EvSetMode UV_TTY_MODE_RAW)
               (fst (uwt_tty_init nv_ok (fresh_world gr0 1) (mk_loop true) 0 1)),
              error_result (-22))) by reflexivity.
  split; [exact E |].
  exact (proj1 (proj2 (proj2 (tty_set_mode_frame false (-22) _ 1 _ _ E)))).
Defined.

(** X5.  For a path in the safe encoding, on an initialized loop whose
    registry can grow, [uwt_fs_poll_start] calls [uv_fs_poll_init]
    exactly when the path is non-empty and the interval fits an unsigned
    int; otherwise it does nothing at all: no registry growth, no
    allocation and no native call. *)
Theorem fs_poll_start_native_iff (nv : native) (gr : registry) (hid : nat) (lp : loop)
    (path : string) (interval : Z) (cb : hvalue) :
  uwt_is_safe_string path = true -> loop_init_called lp = true -> nv_grow_ok nv = true ->
  let tr := w_trace (fst (uwt_fs_poll_start nv (fresh_world gr hid) lp path interval cb)) in
  ((exists h, In (EvNativeInit h) tr) <-> path <> EmptyString /\ 0 <= interval <= UINT_MAX)
  /\ (~ (path <> EmptyString /\ 0 <= interval <= UINT_MAX) -> tr = []).
Proof.
  intros Hs Hl Hg. cbv zeta. rewrite <- (fs_poll_checks_spec lp path interval Hs Hl).
  pose proof (fs_poll_start_cases_gr nv gr hid lp path interval cb) as C.
  destruct (uwt_fs_poll_start nv (fresh_world gr hid) lp path interval cb) as [w r].
  simpl fst. destruct C as [[Hc [Hw _]] | [Hc [Hn _]]]; rewrite Hc.
  - subst w. simpl. split; [split; [intros [h []] | discriminate] | reflexivity].
  - split; [split; [reflexivity | intros _; exists fs_poll_h0; apply Hn, Hg] |].
    intros H. exfalso. apply H. reflexivity.
Qed.

Lemma fs_poll_start_native_iff_witness :
  exists h, In (EvNativeInit h)
    (w_trace (fst (uwt_fs_poll_start nv_ok (fresh_world gr0 0) (mk_loop true) "/tmp/x" 100
                     HUnit))).
Proof.
  apply (proj2 (proj1 (fs_poll_start_native_iff nv_ok gr0 0 (mk_loop true) "/tmp/x" 100 HUnit
                         eq_refl eq_refl eq_refl))).
  split; [discriminate | unfold UINT_MAX; lia].
Defined.

(** X6.  Every [Error] that [uwt_fs_poll_start] returns leaves the entries
    of the root registry as they were: a failed start pins nothing and
    releases nothing (only the registry's capacity may have grown). *)
Theorem fs_poll_start_error_keeps_registry (nv : native) (gr : registry) (hid : nat)
    (lp : loop) (path : string) (interval : Z) (cb : hvalue) (e : uwt_error) :
  snd (uwt_fs_poll_start nv (fresh_world gr hid) lp path interval cb) = HError e ->
  gr_entries (w_gr (fst (uwt_fs_poll_start nv (fresh_world gr hid) lp path interval cb)))
  = gr_entries gr.
Proof.
  pose proof (fs_poll_start_cases_gr nv gr hid lp path interval cb) as C.
  destruct (uwt_fs_poll_start nv (fresh_world gr hid) lp path interval cb) as [w r].
  simpl. intros Hr.
  destruct C as [[_ [Hw _]] | [_ [_ [[_ G] | [Hr' _]]]]].
  - subst w. reflexivity.
  - exact G.
  - subst r. discriminate.
Qed.

Lemma fs_poll_start_error_keeps_registry_witness :
  snd (uwt_fs_poll_start (mk_native 0 (-28) true) (fresh_world (mk_registry [(0%nat, HUnit)] 1 4) 3)
         (mk_loop true) "/tmp/x" 100 (HClosure 2)) = HError ENOSPC
  /\ gr_entries (w_gr (fst (uwt_fs_poll_start (mk_native 0 (-28) true)
         (fresh_world (mk_registry [(0%nat, HUnit)] 1 4) 3)
         (mk_loop true) "/tmp/x" 100 (HClosure 2)))) = [(0%nat, HUnit)].
Proof.
  assert (H : snd (uwt_fs_poll_start (mk_native 0 (-28) true)
                (fresh_world (mk_registry [(0%nat, HUnit)] 1 4) 3)
                (mk_loop true) "/tmp/x" 100 (HClosure 2)) = HError ENOSPC) by reflexivity.
  split; [exact H |].
  exact (fs_poll_start_error_keeps_registry _ _ _ _ _ _ _ _ H).
Defined.

(** X7.  Round trip of a successful start and a close: on a registry
    whose keys all lie below its next free key, after [uwt_fs_poll_start]
    succeeds, a host close request and the completion of the native close
    give back exactly the registry entries there were before the start,
    the struct is freed and the host value's pointer is cleared. *)
Theorem fs_poll_start_close_restores_registry (nv : native) (gr : registry) (hid : nat)
    (lp : loop) (path : string) (interval : Z) (cb : hvalue) :
  (forall p, In p (gr_entries gr) -> (fst p < gr_next gr)%nat) ->
  snd (uwt_fs_poll_start nv (fresh_world gr hid) lp path interval cb) = HOk (HHandle hid) ->
  let w := run (fst (uwt_fs_poll_start nv (fresh_world gr hid) lp path interval cb))
               [OpClose; OpCloseDone] in
  gr_entries (w_gr w) = gr_entries gr /\ w_handle w = None /\ w_vptr w = false.
Proof.
  intros Hwf.
  pose proof (fs_poll_start_cases_gr nv gr hid lp path interval cb) as C.
  destruct (uwt_fs_poll_start nv (fresh_world gr hid) lp path interval cb) as [w r].
  simpl fst; simpl snd. intros Hr.
  destruct C as [[_ [_ [e He]]] | [_ [_ [[[e He] _] | [_ [Hv [Hh Hg]]]]]]].
  { subst r. discriminate. }
  { subst r. discriminate. }
  set (k := gr_next gr) in *.
  set (H0 := mk_handle UV_FS_POLL false false (Some k) (Some (S k))) in *.
  cbv zeta. unfold run. simpl fold_left. simpl step. unfold uwt_close. rewrite Hv.
  destruct (finalize_close_spec w H0 Hh eq_refl) as [F1 _].
  assert (FG : gr_entries (w_gr (uwt__handle_finalize_close w))
               = filter (fun p => negb (Nat.eqb (fst p) (S k)))
                   (filter (fun p => negb (Nat.eqb (fst p) k)) (gr_entries (w_gr w)))).
  { unfold uwt__handle_finalize_close. rewrite Hh. simpl.
    destruct (unregister_spec Cb_read w H0 Hh) as [U1 _].
    rewrite (unregister_gr Cb_listen (uwt__gr_unregister Cb_read w) (put_slot Cb_read None H0)
               (S k) U1 eq_refl).
    rewrite (unregister_gr Cb_read w H0 k Hh eq_refl). reflexivity. }
  rewrite F1. simpl. split; [| split; reflexivity].
  unfold uwt__close_cb. simpl. rewrite FG, Hg. simpl.
  replace (match k with 0%nat => false | S m' => Nat.eqb k m' end) with false
    by (destruct k; [reflexivity | symmetry; apply Nat.eqb_neq; lia]).
  rewrite Nat.eqb_refl. simpl. rewrite Nat.eqb_refl. simpl.
  rewrite !filter_all_true; [reflexivity | |].
  - intros p Hp. apply Hwf in Hp. apply negb_true_iff, Nat.eqb_neq. fold k in Hp. lia.
  - intros p Hp. apply filter_In in Hp. destruct Hp as [Hp _].
    apply Hwf in Hp. apply negb_true_iff, Nat.eqb_neq. fold k in Hp. lia.
Qed.

Lemma fs_poll_start_close_restores_registry_witness :
  gr_entries (w_gr (run (fst (uwt_fs_poll_start nv_ok
                                (fresh_world (mk_registry [(0%nat, HUnit)] 1 4) 3)
                                (mk_loop true) "/tmp/x" 100 (HClosure 2)))
                        [OpClose; OpCloseDone]))
  = [(0%nat, HUnit)].
Proof.
  apply (fs_poll_start_close_restores_registry nv_ok (mk_registry [(0%nat, HUnit)] 1 4) 3
           (mk_loop true) "/tmp/x" 100 (HClosure 2)).
  - simpl. intros p [<- | []]. simpl. lia.
  - reflexivity.
Defined.

(** X8.  The slots [uwt_fs_poll_start] fills are the ones [fs_poll_cb]
    reads: after a successful start, every poll event calls the callback
    given to the start, with the handle value the start returned, and
    [Error (Val_uwt_error status)] or [Ok] of the two stat copies. *)
Theorem fs_poll_start_then_event (nv : native) (gr : registry) (hid : nat) (lp : loop)
    (path : string) (interval : Z) (cb : hvalue) (status : Z) (prev curr : uv_stat) :
  snd (uwt_fs_poll_start nv (fresh_world gr hid) lp path interval cb) = HOk (HHandle hid) ->
  let w := fst (uwt_fs_poll_start nv (fresh_world gr hid) lp path interval cb) in
  w_trace (step w (OpEvent status prev curr))
  = w_trace w
    ++ [EvCallback cb (HHandle hid)
          (if status <? 0 then HError (Val_uwt_error status)
           else HOk (HPair (uwt__stat_to_value prev) (uwt__stat_to_value curr)))].
Proof.
  pose proof (fs_poll_start_cases_gr nv gr hid lp path interval cb) as C.
  destruct (uwt_fs_poll_start nv (fresh_world gr hid) lp path interval cb) as [w r].
  simpl fst; simpl snd. intros Hr.
  destruct C as [[_ [_ [e He]]] | [_ [_ [[[e He] _] | [_ [_ [Hh Hg]]]]]]].
  { subst r. discriminate. }
  { subst r. discriminate. }
  cbv zeta. simpl step. rewrite Hh. simpl. unfold fs_poll_cb. rewrite Hh. simpl.
  unfold GET_CB_VAL. simpl. rewrite Hg. simpl.
  rewrite Nat.eqb_refl.
  replace (match gr_next gr with 0%nat => false | S m' => Nat.eqb (gr_next gr) m' end)
    with false by (destruct (gr_next gr); [reflexivity | symmetry; apply Nat.eqb_neq; lia]).
  reflexivity.
Qed.

Lemma fs_poll_start_then_event_witness :
  w_trace (step (fst (uwt_fs_poll_start nv_ok (fresh_world gr0 5) (mk_loop true) "/tmp/x" 100
                        (HClosure 2)))
                (OpEvent (-2) stat0 stat1))
  = w_trace (fst (uwt_fs_poll_start nv_ok (fresh_world gr0 5) (mk_loop true) "/tmp/x" 100
                    (HClosure 2)))
    ++ [EvCallback (HClosure 2) (HHandle 5) (HError ENOENT)].
Proof.
  exact (fs_poll_start_then_event nv_ok gr0 5 (mk_loop true) "/tmp/x" 100 (HClosure 2)
           (-2) stat0 stat1 eq_refl).
Defined.

(** X9.  Whenever [uwt_fs_poll_start] returns an [Error], the host value
    it leaves behind holds no live handle: its pointer is cleared or no
    struct exists, so any number of host close requests on it change
    nothing; in particular none reaches [uwt__handle_finalize_close]
    a second time. *)
Theorem fs_poll_start_error_close_noop (nv : native) (gr : registry) (hid : nat)
    (lp : loop) (path : string) (interval : Z) (cb : hvalue) (e : uwt_error) (n : nat) :
  snd (uwt_fs_poll_start nv (fresh_world gr hid) lp path interval cb) = HError e ->
  let w := fst (uwt_fs_poll_start nv (fresh_world gr hid) lp path interval cb) in
  (w_vptr w = false \/ w_handle w = None) /\ run w (repeat OpClose n) = w.
Proof.
  pose proof (fs_poll_start_cases nv gr hid lp path interval cb) as C.
  destruct (uwt_fs_poll_start nv (fresh_world gr hid) lp path interval cb) as [w r].
  simpl fst; simpl snd. intros Hr. cbv zeta.
  assert (Hp : w_vptr w = false \/ w_handle w = None).
  { destruct C as [[Hw _] | [[Hh _] | [[_ [_ [Hv _]]] | [[_ [_ [_ [Hv _]]]] | [_ [_ [Hr' _]]]]]]].
    - subst w. left. reflexivity.
    - right. exact Hh.
    - left. exact Hv.
    - left. exact Hv.
    - subst r. discriminate. }
  assert (Hc : uwt_close w = w).
  { unfold uwt_close. destruct Hp as [Hv | Hh]; [rewrite Hv; reflexivity |].
    destruct (w_vptr w); [| reflexivity].
    unfold uwt__handle_finalize_close. rewrite Hh. reflexivity. }
  split; [exact Hp |].
  induction n as [|n IH]; [reflexivity |].
  simpl. change (step w OpClose) with (uwt_close w). rewrite Hc. exact IH.
Qed.

Lemma fs_poll_start_error_close_noop_witness :
  snd (uwt_fs_poll_start (mk_native 0 (-28) true) (fresh_world gr0 3)
         (mk_loop true) "/tmp/x" 100 (HClosure 2)) = HError ENOSPC
  /\ run (fst (uwt_fs_poll_start (mk_native 0 (-28) true) (fresh_world gr0 3)
               (mk_loop true) "/tmp/x" 100 (HClosure 2))) (repeat OpClose 3)
     = fst (uwt_fs_poll_start (mk_native 0 (-28) true) (fresh_world gr0 3)
              (mk_loop true) "/tmp/x" 100 (HClosure 2)).
Proof.
  assert (H : snd (uwt_fs_poll_start (mk_native 0 (-28) true) (fresh_world gr0 3)
                (mk_loop true) "/tmp/x" 100 (HClosure 2)) = HError ENOSPC) by reflexivity.
  split; [exact H |].
  exact (proj2 (fs_poll_start_error_close_noop _ _ _ _ _ _ _ _ 3 H)).
Defined.

(** X10.  [uwt_tty_init] pins nothing: whether [uv_tty_init] succeeds or
    fails, the root registry is left exactly as it was and no
    registration or release happens. *)
Theorem tty_init_keeps_registry (nv : native) (gr : registry) (hid : nat) (lp : loop)
    (fd rd : Z) :
  let w := fst (uwt_tty_init nv (fresh_world gr hid) lp fd rd) in
  w_gr w = gr /\ count is_register (w_trace w) = 0%nat
  /\ count is_release (w_trace w) = 0%nat.
Proof.
  unfold uwt_tty_init, uwt__handle_res_create. simpl.
  destruct (nv_init_rc nv <? 0); simpl; repeat split; reflexivity.
Qed.
